(** * xerrors: typed payloads on Go error chains

    A shallow embedding of the Go module [github.com/wood-jp/xerrors]:
    the core package [xerrors] ([ExtendedError], [Extend], [Extract]),
    the classifier [errclass] ([Class], [WrapAs], [GetClass]) and the
    context attacher [errcontext] ([Context], [Flatten], [Get], [Add]).

    The module is written against Go's standard library; the parts it
    calls are modelled after the library's sources: [errors.Is],
    [errors.AsType] and [errors.Unwrap], the interface comparison [==]
    they rest on, and the few values of [log/slog] that the context
    attacher stores.

    Go's [error] is an interface: a value of that type is either [nil]
    or a dynamic type paired with a value.  Error chains are finite and
    acyclic, so the non-nil error values form an inductive tree and the
    chain walks of [errors] are structural recursions.  A run-time
    panic is the result [None] of a function into [option].

    [Extend] and [Extract] are generic in the payload type.  The types
    here are the basic types, the map type of [errcontext.Context] and
    the defined types over them; the core looks at a payload type only
    through type identity and, in [==], comparability. *)

From Stdlib Require Import ZArith Bool.
From stdpp Require Import base option list strings gmap sorting.

Local Open Scope Z_scope.

(** ** Payload types *)

(** Heap addresses: pointers ([*errors.errorString], [*fmt.wrapError])
    and map references. *)
Abbreviation addr := nat.

(** The Go types a payload can have.  [TNamed n u] is the defined type
    [type n u]; type identity is nominal, so two defined types with the
    same underlying type are different types. *)
Inductive gotype : Type :=
| TInt
| TString
| TBool
| TMap                                    (* map[string]slog.Value *)
| TNamed (name : string) (underlying : gotype).

(** Values of a Go type.  A map value is a reference: [None] is the nil
    map, [Some a] the map stored at address [a]. *)
Fixpoint denote (T : gotype) : Type :=
  match T with
  | TInt => Z
  | TString => string
  | TBool => bool
  | TMap => option addr
  | TNamed _ u => denote u
  end.

(** The zero value [var zero T]. *)
Fixpoint zero (T : gotype) : denote T :=
  match T with
  | TInt => 0
  | TString => EmptyString
  | TBool => false
  | TMap => None
  | TNamed _ u => zero u
  end.

(** Type identity ([A] and [B] are the same Go type). *)
Fixpoint gotype_eqb (A B : gotype) : bool :=
  match A, B with
  | TInt, TInt | TString, TString | TBool, TBool | TMap, TMap => true
  | TNamed n u, TNamed m v => String.eqb n m && gotype_eqb u v
  | _, _ => false
  end.

(** A value of dynamic type [A] seen at type [B]: the type assertion
    [x.(B)] on an interface holding an [A].  It succeeds exactly when
    the two types are identical. *)
Fixpoint cast (A B : gotype) : denote A -> option (denote B) :=
  match A, B return denote A -> option (denote B) with
  | TInt, TInt => fun x => Some x
  | TString, TString => fun x => Some x
  | TBool, TBool => fun x => Some x
  | TMap, TMap => fun x => Some x
  | TNamed n u, TNamed m v =>
      fun x => if String.eqb n m then cast u v x else None
  | _, _ => fun _ => None
  end.

(** [reflect.Type.Comparable]: maps are not comparable, the basic types
    are, a defined type is when its underlying type is. *)
Fixpoint comparable (T : gotype) : bool :=
  match T with
  | TInt | TString | TBool => true
  | TMap => false
  | TNamed _ u => comparable u
  end.

(** [x == y] at a comparable type. (At [TMap] the operator does not
    exist; the clause is never used, see [err_eq].) *)
Fixpoint val_eqb (T : gotype) : denote T -> denote T -> bool :=
  match T return denote T -> denote T -> bool with
  | TInt => Z.eqb
  | TString => String.eqb
  | TBool => Bool.eqb
  | TMap => fun _ _ => false
  | TNamed _ u => val_eqb u
  end.

(** ** Error values *)

(** The non-nil values of type [error].
    - [errorString p s] is the [*errors.errorString] at address [p]
      made by [errors.New(s)] or by [fmt.Errorf] without [%w];
    - [wrapError k p msg err] is a pointer to a single-cause wrapper of
      the named kind [k] (for [k = "*fmt.wrapError"] the result of
      [fmt.Errorf("...%w...", err)]): its method set is [Error] and
      [Unwrap() error];
    - [joinError p errs] is a multi-cause error ([errors.Join]), whose
      method set is [Error] and [Unwrap() []error];
    - [Extended T err Data] is the struct value
      [xerrors.ExtendedError[T]{err: err, Data: Data}]. *)
#[warnings="-register-all"]
Inductive err_val : Type :=
| errorString (p : addr) (s : string)
| wrapError (kind : string) (p : addr) (msg : string) (err : option err_val)
| joinError (p : addr) (errs : list err_val)
| Extended (T : gotype) (err : option err_val) (Data : denote T).

(** A value of interface type [error]; [None] is [nil]. *)
Definition error := option err_val.
Definition nil : error := None.

(** type ExtendedError[T any] struct { err error; Data T } *)
Record ExtendedError (T : gotype) : Type := mkExtendedError {
  err : error;
  Data : denote T
}.
Arguments mkExtendedError {T} _ _.
Arguments err {T} _.
Arguments Data {T} _.

(** The struct stored in an interface value of type [error]. *)
Definition to_error {T} (e : ExtendedError T) : err_val :=
  Extended T (err e) (Data e).

(** The zero value of the struct type. *)
Definition zeroExtendedError (T : gotype) : ExtendedError T :=
  mkExtendedError nil (zero T).

(** ** Method sets *)

Definition newline : Ascii.ascii := Ascii.ascii_of_nat 10.

(** [e.Error()].  [None] stands for the run-time panic of calling a
    method on a nil interface, which [ExtendedError.Error] does when its
    [err] field is nil.  A join renders its parts separated by newlines
    (and indexes its first part, so an empty one would panic). *)
Fixpoint Error (e : err_val) : option string :=
  match e with
  | errorString _ s => Some s
  | wrapError _ _ msg _ => Some msg
  | joinError _ errs =>
      (fix join (l : list err_val) : option string :=
         match l with
         | [] => None
         | [x] => Error x
         | x :: rest =>
             match Error x, join rest with
             | Some a, Some b => Some (a +:+ String newline b)
             | _, _ => None
             end
         end) errs
  | Extended _ None _ => None
  | Extended _ (Some c) _ => Error c
  end.

(** Calling [Error] through an interface value. *)
Definition call_Error (e : error) : option string :=
  match e with
  | None => None
  | Some v => Error v
  end.

(** The result of a type switch on the two unwrap interfaces. *)
Inductive unwrapping : Type :=
| NoUnwrap
| UnwrapOne (cause : error)               (* interface{ Unwrap() error } *)
| UnwrapMany (causes : list err_val).     (* interface{ Unwrap() []error } *)

Definition unwrap_of (e : err_val) : unwrapping :=
  match e with
  | errorString _ _ => NoUnwrap
  | wrapError _ _ _ c => UnwrapOne c
  | joinError _ errs => UnwrapMany errs
  | Extended _ c _ => UnwrapOne c              (* ExtendedError.Unwrap *)
  end.

(** Whether the dynamic type of [e] is comparable: pointers are, the
    struct [ExtendedError[T]] is when [T] is (its other field has an
    interface type, which is comparable as a type). *)
Definition dyn_comparable (e : err_val) : bool :=
  match e with
  | Extended T _ _ => comparable T
  | _ => true
  end.

(** [x == y] on two non-nil interface values.  Different dynamic types
    are unequal; pointers are compared by address; structs field by
    field in source order, stopping at the first difference.  Comparing
    two values of one identical non-comparable dynamic type panics
    ([None]). *)
Fixpoint err_eq (x y : err_val) : option bool :=
  match x, y with
  | errorString p _, errorString q _ => Some (Nat.eqb p q)
  | wrapError k p _ _, wrapError k' q _ _ =>
      Some (String.eqb k k' && Nat.eqb p q)
  | joinError p _, joinError q _ => Some (Nat.eqb p q)
  | Extended T c d, Extended T' c' d' =>
      match cast T' T d' with
      | None => Some false
      | Some d'' =>
          if comparable T then
            match
              match c, c' with
              | None, None => Some true
              | Some a, Some b => err_eq a b
              | _, _ => Some false
              end
            with
            | None => None
            | Some false => Some false
            | Some true => Some (val_eqb T d d'')
            end
          else None
      end
  | _, _ => Some false
  end.

(** [x == y] on interface values of type [error]. *)
Definition iface_eq (x y : error) : option bool :=
  match x, y with
  | None, None => Some true
  | Some a, Some b => err_eq a b
  | _, _ => Some false
  end.

(** ** Package errors (Go standard library) *)

Module errors.

(** func Unwrap(err error) error: the result of the [Unwrap() error]
    method when the dynamic type has one, nil otherwise. *)
Definition Unwrap (err : error) : error :=
  match err with
  | None => nil
  | Some e =>
      match unwrap_of e with
      | UnwrapOne c => c
      | _ => nil
      end
  end.

(** The type assertion [err.(ExtendedError[T])]. *)
Definition assertExtended (T : gotype) (e : err_val)
  : option (ExtendedError T) :=
  match e with
  | Extended T' c d =>
      match cast T' T d with
      | Some d' => Some (mkExtendedError c d')
      | None => None
      end
  | _ => None
  end.

(** The loop of [errors.asType] at the target type [ExtendedError[T]]:
    test the link, then follow [Unwrap() error], or search the parts
    of [Unwrap() []error] depth first.  No error type of the model
    has an [As(any) bool] method, so that test never fires. *)
Fixpoint asType (T : gotype) (e : err_val) : ExtendedError T * bool :=
  match assertExtended T e with
  | Some x => (x, true)
  | None =>
      match e with
      | errorString _ _ => (zeroExtendedError T, false)
      | wrapError _ _ _ c | Extended _ c _ =>
          match c with
          | None => (zeroExtendedError T, false)
          | Some c' => asType T c'
          end
      | joinError _ errs =>
          (fix each (l : list err_val) : ExtendedError T * bool :=
             match l with
             | [] => (zeroExtendedError T, false)
             | x :: rest =>
                 let r := asType T x in
                 if snd r then r else each rest
             end) errs
      end
  end.

(** func AsType[E error](err error) (E, bool), E = ExtendedError[T]. *)
Definition AsType (T : gotype) (err : error) : ExtendedError T * bool :=
  match err with
  | None => (zeroExtendedError T, false)
  | Some e => asType T e
  end.

(** The loop of [errors.is]: compare the link with the target when
    the target's type is comparable, then unwrap.  [None] is the
    panic of [==].  No error type of the model has an [Is] method. *)
Fixpoint is_ (e target : err_val) (targetComparable : bool)
  : option bool :=
  match (if targetComparable then err_eq e target else Some false) with
  | None => None
  | Some true => Some true
  | Some false =>
      match e with
      | errorString _ _ => Some false
      | wrapError _ _ _ c | Extended _ c _ =>
          match c with
          | None => Some false
          | Some c' => is_ c' target targetComparable
          end
      | joinError _ errs =>
          (fix each (l : list err_val) : option bool :=
             match l with
             | [] => Some false
             | x :: rest =>
                 match is_ x target targetComparable with
                 | None => None
                 | Some true => Some true
                 | Some false => each rest
                 end
             end) errs
      end
  end.

(** func Is(err, target error) bool *)
Definition Is (err target : error) : option bool :=
  match err, target with
  | Some e, Some t => is_ e t (dyn_comparable t)
  | _, _ => iface_eq err target
  end.

End errors.

(** ** Package xerrors *)

Module xerrors.

(** func (e ExtendedError[T]) Error() string *)
Definition ExtendedError_Error {T} (e : ExtendedError T) : option string :=
  call_Error (err e).

(** func (e ExtendedError[T]) Unwrap() error *)
Definition ExtendedError_Unwrap {T} (e : ExtendedError T) : error :=
  err e.

(** func Extend[T any](data T, err error) error *)
Definition Extend (T : gotype) (data : denote T) (err : error) : error :=
  match err with
  | None => nil
  | Some _ => Some (to_error (mkExtendedError (T:=T) err data))
  end.

(** func Extract[T any](err error) (T, bool) *)
Definition Extract (T : gotype) (err : error) : denote T * bool :=
  let '(e, ok) := errors.AsType T err in
  (Data e, ok).

End xerrors.

(** ** Package errclass *)

Module errclass.

(** type Class int *)
Definition Class : gotype := TNamed "errclass.Class" TInt.

(** const ( Nil Class = iota - 1; Unknown; Transient; Persistent; Panic ) *)
Definition Nil : denote Class := 0 - 1.
Definition Unknown : denote Class := 1 - 1.
Definition Transient : denote Class := 2 - 1.
Definition Persistent : denote Class := 3 - 1.
Definition Panic : denote Class := 4 - 1.

(** func (c Class) String() string *)
Definition Class_String (c : denote Class) : string :=
  if Z.eqb c Nil then "nil"%string
  else if Z.eqb c Panic then "panic"%string
  else if Z.eqb c Transient then "transient"%string
  else if Z.eqb c Persistent then "persistent"%string
  else "unknown"%string.

Inductive wrappingRestriction : Type :=
| wrappingRestrictionNone
| wrappingRestrictionOnlyUnknown
| wrappingRestrictionOnlyMoreSevere.

Record wrapOptions : Type := { restriction : wrappingRestriction }.

(** type WrapOption func(opt *wrapOptions): the assignment through
    the pointer becomes a function on the options. *)
Definition WrapOption : Type := wrapOptions -> wrapOptions.

Definition WithUnrestricted : WrapOption :=
  fun _ => {| restriction := wrappingRestrictionNone |}.
Definition WithOnlyUnknown : WrapOption :=
  fun _ => {| restriction := wrappingRestrictionOnlyUnknown |}.
Definition WithOnlyMoreSevere : WrapOption :=
  fun _ => {| restriction := wrappingRestrictionOnlyMoreSevere |}.

(** func GetClass(err error) Class *)
Definition GetClass (err : error) : denote Class :=
  match err with
  | None => Nil
  | Some _ =>
      let '(class, ok) := xerrors.Extract Class err in
      if ok then class else Unknown
  end.

(** func WrapAs(err error, class Class, opts ...WrapOption) error *)
Definition WrapAs (err : error) (class : denote Class)
    (opts : list WrapOption) : error :=
  match err with
  | None => nil
  | Some _ =>
      let options :=
        fold_left (fun o opt => opt o) opts
                  {| restriction := wrappingRestrictionNone |} in
      let currentClass := GetClass err in
      match restriction options with
      | wrappingRestrictionOnlyUnknown =>
          if Z.eqb currentClass Unknown
          then xerrors.Extend Class class err
          else err
      | wrappingRestrictionOnlyMoreSevere =>
          if Z.gtb class currentClass
          then xerrors.Extend Class class err
          else err
      | wrappingRestrictionNone => xerrors.Extend Class class err
      end
  end.

End errclass.

(** ** Package log/slog (Go standard library), as far as it is used *)

Module slog.

(** type Value: the zero [Value{}], or a string, an integer or a
    boolean. *)
Inductive Value : Type :=
| ZeroValue
| StringValue (s : string)
| IntValue (z : Z)
| BoolValue (b : bool).

(** type Attr struct { Key string; Value Value } *)
Record Attr : Type := mkAttr { Key : string; Val : Value }.

(** func String(key, value string) Attr *)
Definition String (key value : string) : Attr :=
  mkAttr key (StringValue value).

End slog.

(** ** Package errcontext *)

Module errcontext.

(** type Context map[string]slog.Value *)
Definition Context : gotype := TNamed "errcontext.Context" TMap.

(** The store of allocated maps; the map reference [Some a] denotes
    the map at index [a]. *)
Abbreviation heap := (list (gmap string slog.Value)).

(** slices.Sorted: ascending order of Go strings (bytewise). *)
Fixpoint insert_sorted (k : string) (l : list string) : list string :=
  match l with
  | [] => [k]
  | x :: rest =>
      if String.leb k x then k :: l else x :: insert_sorted k rest
  end.

Definition slices_Sorted (l : list string) : list string :=
  foldr insert_sorted [] l.

(** maps.Keys *)
Definition maps_Keys (m : gmap string slog.Value) : list string :=
  (map_to_list m).*1.

(** The map a [Context] value refers to; a nil map reads as empty. *)
Definition deref (h : heap) (c : denote Context)
  : gmap string slog.Value :=
  match c with
  | None => ∅
  | Some a => default ∅ (h !! a)
  end.

(** func (c Context) Flatten() []slog.Attr *)
Definition Flatten (h : heap) (c : denote Context) : list slog.Attr :=
  let m := deref h c in
  let keys := slices_Sorted (maps_Keys m) in
  (fun key => slog.mkAttr key (default slog.ZeroValue (m !! key)))
    <$> keys.

(** func Get(err error) Context *)
Definition Get (err : error) : denote Context :=
  match err with
  | None => None
  | Some _ =>
      let '(context, ok) := xerrors.Extract Context err in
      if ok then context else None
  end.

(** for _, attr := range context { m[attr.Key] = attr.Value }
    on the map at address [a]. *)
Definition assign_all (h : heap) (a : addr) (context : list slog.Attr)
  : heap :=
  fold_left
    (fun h attr => alter (insert (slog.Key attr) (slog.Val attr)) a h)
    context h.

(** func Add(err error, context ...slog.Attr) error.  The function
    reads and writes the store of maps, which is threaded through. *)
Definition Add (h : heap) (err : error) (context : list slog.Attr)
  : error * heap :=
  match err with
  | None => (nil, h)
  | Some _ =>
      if Nat.eqb (length context) 0 then (err, h)
      else
        match Get err with
        | Some existing => (err, assign_all h existing context)
        | None =>
            let newContext := length h in       (* make(Context, n) *)
            let h' := assign_all (h ++ [∅]) newContext context in
            (xerrors.Extend Context (Some newContext) err, h')
        end
  end.

(** for _, context := range contexts { err = Add(err, context...) },
    the loop of the package's tests. *)
Definition Add_seq (h : heap) (err : error) (contexts : list (list slog.Attr))
  : error * heap :=
  fold_left (fun r context => Add r.2 r.1 context) contexts (err, h).

End errcontext.

(** ** Vocabulary of the properties *)

(** Whether the dynamic type of a link is [ExtendedError[T]]. *)
Definition is_ExtendedError (T : gotype) (e : err_val) : bool :=
  match e with
  | Extended T' _ _ => gotype_eqb T' T
  | _ => false
  end.

(** Whether some link of the chain of [e] is an [ExtendedError[T]]; the
    chain is everything reachable through [Unwrap() error] and the parts
    of [Unwrap() []error]. *)
Fixpoint link_in_chain (T : gotype) (e : err_val) : bool :=
  is_ExtendedError T e ||
  match e with
  | errorString _ _ => false
  | wrapError _ _ _ c | Extended _ c _ =>
      match c with
      | None => false
      | Some c' => link_in_chain T c'
      end
  | joinError _ errs =>
      (fix any (l : list err_val) : bool :=
         match l with
         | [] => false
         | x :: rest => link_in_chain T x || any rest
         end) errs
  end.

Definition chain_has (T : gotype) (e : error) : bool :=
  match e with
  | None => false
  | Some v => link_in_chain T v
  end.

(** A payload together with its type, and [Extend] applied once per
    payload of a list, the head of the list outermost. *)
Definition payload : Type := { T : gotype & denote T }.

Definition extend_layers (layers : list payload) (e : error) : error :=
  foldr (fun l acc => xerrors.Extend (projT1 l) (projT2 l) acc) e layers.

(** The outermost payload of type [T] among the layers, if any. *)
Fixpoint first_payload (T : gotype) (layers : list payload)
  : option (denote T) :=
  match layers with
  | [] => None
  | l :: rest =>
      match cast (projT1 l) T (projT2 l) with
      | Some d => Some d
      | None => first_payload T rest
      end
  end.

(** A map reference held by an error points into the store. *)
Definition context_allocated (h : list (gmap string slog.Value)) (e : error)
  : bool :=
  match errcontext.Get e with
  | Some a => Nat.ltb a (length h)
  | None => true
  end.

(** The value the last entry with key [k] gives it, if there is one. *)
Fixpoint last_write (k : string) (context : list slog.Attr)
  : option slog.Value :=
  match context with
  | [] => None
  | x :: rest =>
      match last_write k rest with
      | Some v => Some v
      | None => if String.eqb (slog.Key x) k then Some (slog.Val x) else None
      end
  end.

(** The loop of [errcontext.Add] on the map itself. *)
Definition assign_map (m : gmap string slog.Value)
    (context : list slog.Attr) : gmap string slog.Value :=
  fold_left (fun m attr => <[slog.Key attr := slog.Val attr]> m) context m.

(** The sentinel of the tests: var errTest = fmt.Errorf("this is a test error") *)
Definition errTest : err_val := errorString 0%nat "this is a test error".

(** ** Induction on error chains *)

Section err_val_induction.
Variable P : err_val -> Prop.
Hypothesis P_errorString : forall p s, P (errorString p s).
Hypothesis P_wrapError :
  forall k p msg c, (forall c', c = Some c' -> P c') -> P (wrapError k p msg c).
Hypothesis P_joinError :
  forall p errs, Forall P errs -> P (joinError p errs).
Hypothesis P_Extended :
  forall T c d, (forall c', c = Some c' -> P c') -> P (Extended T c d).

Fixpoint err_val_chain_ind (e : err_val) : P e :=
  match e with
  | errorString p s => P_errorString p s
  | wrapError k p msg c =>
      P_wrapError k p msg c
        (match c return forall c', c = Some c' -> P c' with
         | None => fun c' H => match H with end
         | Some c0 => fun c' H =>
             match H in _ = y return match y with Some z => P z | None => True end
             with eq_refl => err_val_chain_ind c0 end
         end)
  | joinError p errs =>
      P_joinError p errs
        ((fix all (l : list err_val) : Forall P l :=
            match l with
            | [] => @List.Forall_nil _ P
            | x :: rest => @List.Forall_cons _ P x rest (err_val_chain_ind x) (all rest)
            end) errs)
  | Extended T c d =>
      P_Extended T c d
        (match c return forall c', c = Some c' -> P c' with
         | None => fun c' H => match H with end
         | Some c0 => fun c' H =>
             match H in _ = y return match y with Some z => P z | None => True end
             with eq_refl => err_val_chain_ind c0 end
         end)
  end.
End err_val_induction.

(** ** Type identity and type assertions *)

Lemma gotype_eqb_eq (A B : gotype) : gotype_eqb A B = true <-> A = B.
Proof.
  revert B. induction A as [ | | | | n u IH]; intros [ | | | | m v]; simpl;
    try (split; [discriminate | congruence]); try tauto.
  rewrite andb_true_iff, String.eqb_eq, IH.
  split; [intros [-> ->]; reflexivity | intros [= -> ->]; auto].
Qed.

Lemma gotype_eqb_refl (A : gotype) : gotype_eqb A A = true.
Proof. apply gotype_eqb_eq. reflexivity. Qed.

Lemma cast_refl (T : gotype) (x : denote T) : cast T T x = Some x.
Proof.
  induction T as [ | | | | n u IH]; simpl; try reflexivity.
  rewrite String.eqb_refl. apply IH.
Qed.

Lemma cast_Some_eq (A B : gotype) (x : denote A) (y : denote B) :
  cast A B x = Some y -> A = B.
Proof.
  revert B x y. induction A as [ | | | | n u IH]; intros [ | | | | m v] x y;
    simpl; try discriminate; try reflexivity.
  destruct (String.eqb_spec n m) as [-> | ]; [ | discriminate].
  intros H. apply IH in H. congruence.
Qed.

Lemma cast_neq (A B : gotype) (x : denote A) : A <> B -> cast A B x = None.
Proof.
  intros H. destruct (cast A B x) as [y | ] eqn:E; [ | reflexivity].
  apply cast_Some_eq in E. contradiction.
Qed.

Lemma assertExtended_match (T : gotype) (c : error) (d : denote T) :
  errors.assertExtended T (Extended T c d) = Some (mkExtendedError c d).
Proof. simpl. rewrite cast_refl. reflexivity. Qed.

Lemma assertExtended_foreign (T : gotype) (e : err_val) :
  is_ExtendedError T e = false -> errors.assertExtended T e = None.
Proof.
  destruct e as [ | | | T' c d]; simpl; try reflexivity.
  intros H. rewrite cast_neq; [reflexivity | ].
  intros ->. rewrite gotype_eqb_refl in H. discriminate.
Qed.

(** ** The methods of ExtendedError behind the interface *)

Lemma Error_to_error (T : gotype) (x : ExtendedError T) :
  Error (to_error x) = xerrors.ExtendedError_Error x.
Proof. destruct x as [[c | ] d]; reflexivity. Qed.

Lemma unwrap_of_to_error (T : gotype) (x : ExtendedError T) :
  unwrap_of (to_error x) = UnwrapOne (xerrors.ExtendedError_Unwrap x).
Proof. reflexivity. Qed.

(** ** The chain walk of errors.AsType *)

Lemma asType_match (T : gotype) (c : error) (d : denote T) :
  errors.asType T (Extended T c d) = (mkExtendedError c d, true).
Proof.
  destruct c; cbn [errors.asType]; rewrite assertExtended_match; reflexivity.
Qed.

(** A link of another kind with a single cause is skipped. *)
Lemma asType_skip (T : gotype) (w c : err_val) :
  is_ExtendedError T w = false ->
  unwrap_of w = UnwrapOne (Some c) ->
  errors.asType T w = errors.asType T c.
Proof.
  intros Hk Hu. apply assertExtended_foreign in Hk.
  destruct w; simpl in Hu; try discriminate;
    injection Hu as ->; cbn [errors.asType]; rewrite Hk; reflexivity.
Qed.

Lemma asType_miss (T : gotype) (e : err_val) :
  link_in_chain T e = false ->
  errors.asType T e = (zeroExtendedError T, false).
Proof.
  induction e as [p s | k p msg c IH | p errs IH | T' c d IH]
    using err_val_chain_ind; cbn [link_in_chain errors.asType];
    intros H; apply orb_false_iff in H as [Hk H];
    rewrite (assertExtended_foreign _ _ Hk).
  - reflexivity.
  - destruct c as [c' | ]; [apply (IH c' eq_refl H) | reflexivity].
  - clear Hk. induction IH as [ | x rest Hx _ IHrest]; [reflexivity | ].
    apply orb_false_iff in H as [H1 H2].
    rewrite (Hx H1). simpl. apply IHrest, H2.
  - destruct c as [c' | ]; [apply (IH c' eq_refl H) | reflexivity].
Qed.

(** ** Extend and Extract *)

Lemma Extend_nil (T : gotype) (d : denote T) : xerrors.Extend T d nil = nil.
Proof. reflexivity. Qed.

Lemma Extend_Some (T : gotype) (d : denote T) (e : err_val) :
  xerrors.Extend T d (Some e) = Some (Extended T (Some e) d).
Proof. reflexivity. Qed.

Lemma Extend_not_nil (T : gotype) (d : denote T) (e : error) :
  e <> nil -> xerrors.Extend T d e <> nil.
Proof. destruct e; [discriminate | contradiction]. Qed.

Lemma Extract_Extended (T : gotype) (c : error) (d : denote T) :
  xerrors.Extract T (Some (Extended T c d)) = (d, true).
Proof.
  unfold xerrors.Extract, errors.AsType. rewrite asType_match. reflexivity.
Qed.

Lemma Extract_miss (T : gotype) (e : error) :
  chain_has T e = false -> xerrors.Extract T e = (zero T, false).
Proof.
  destruct e as [v | ]; [ | reflexivity].
  intros H. unfold xerrors.Extract, errors.AsType.
  rewrite (asType_miss _ _ H). reflexivity.
Qed.

Lemma Extract_skip (T : gotype) (w c : err_val) :
  is_ExtendedError T w = false ->
  unwrap_of w = UnwrapOne (Some c) ->
  xerrors.Extract T (Some w) = xerrors.Extract T (Some c).
Proof.
  intros Hk Hu. unfold xerrors.Extract, errors.AsType.
  rewrite (asType_skip _ _ _ Hk Hu). reflexivity.
Qed.

(** ** Identity matching: [==] and errors.Is *)

(** Once some value compares equal to a target, comparing anything
    with that target is defined: every struct nested in the target has
    a comparable type. *)
Lemma err_eq_defined (t : err_val) :
  forall c, err_eq c t = Some true -> forall x, err_eq x t <> None.
Proof.
  induction t as [q s | k q msg c' IH | q errs IH | T' c' d' IH]
    using err_val_chain_ind; intros c Hc x.
  - destruct x; simpl; discriminate.
  - destruct x; simpl; discriminate.
  - destruct x; simpl; discriminate.
  - destruct c as [ | | | T cc dc]; simpl in Hc; try discriminate.
    destruct (cast T' T d') as [d'' | ] eqn:Ec; [ | discriminate].
    pose proof (cast_Some_eq _ _ _ _ Ec) as ->.
    destruct (comparable T) eqn:Hcmp; [ | discriminate].
    destruct x as [ | | | Tx cx dx]; simpl; try discriminate.
    destruct (cast T Tx d') as [dx' | ] eqn:Ex; [ | discriminate].
    pose proof (cast_Some_eq _ _ _ _ Ex) as <-.
    rewrite Hcmp.
    destruct cx as [x' | ], c' as [t' | ]; try (destruct (val_eqb _ _ _); discriminate);
      try discriminate.
    destruct cc as [c0 | ]; [ | discriminate].
    destruct (err_eq c0 t') as [[ | ] | ] eqn:E0; try discriminate.
    pose proof (IH t' eq_refl c0 E0 x') as Hx.
    destruct (err_eq x' t') as [[ | ] | ]; try discriminate.
    contradiction.
Qed.

Lemma is_true_matches (e t : err_val) :
  errors.is_ e t true = Some true -> exists c, err_eq c t = Some true.
Proof.
  induction e as [p s | k p msg c IH | p errs IH | T c d IH]
    using err_val_chain_ind; cbn [errors.is_].
  - destruct (err_eq _ t) as [[ | ] | ] eqn:E; try discriminate; eauto.
  - destruct (err_eq _ t) as [[ | ] | ] eqn:E; try discriminate; eauto.
    destruct c as [c' | ]; [apply (IH c' eq_refl) | discriminate].
  - destruct (err_eq _ t) as [[ | ] | ] eqn:E; try discriminate; eauto.
    clear E. induction IH as [ | x rest Hx _ IHrest]; [discriminate | ].
    destruct (errors.is_ x t true) as [[ | ] | ]; try discriminate; auto.
  - destruct (err_eq _ t) as [[ | ] | ] eqn:E; try discriminate; eauto.
    destruct c as [c' | ]; [apply (IH c' eq_refl) | discriminate].
Qed.

Lemma is_Extended_preserve (e t : err_val) (T : gotype) (d : denote T)
    (cmp : bool) :
  errors.is_ e t cmp = Some true ->
  errors.is_ (Extended T (Some e) d) t cmp = Some true.
Proof.
  intros H. cbn [errors.is_]. destruct cmp; [ | exact H].
  destruct (is_true_matches _ _ H) as [c Hc].
  pose proof (err_eq_defined t c Hc (Extended T (Some e) d)) as Hd.
  destruct (err_eq (Extended T (Some e) d) t) as [[ | ] | ];
    [reflexivity | exact H | contradiction].
Qed.

(** Wrapping keeps every successful identity match, whatever the
    target. *)
Lemma Is_Extend_preserve (e t : error) (T : gotype) (d : denote T) :
  errors.Is e t = Some true ->
  errors.Is (xerrors.Extend T d e) t = Some true.
Proof.
  destruct e as [v | ]; [ | exact (fun H => H)].
  destruct t as [tv | ]; simpl; [apply is_Extended_preserve | discriminate].
Qed.

Lemma Is_extend_layers_preserve (layers : list payload) (e t : error) :
  errors.Is e t = Some true ->
  errors.Is (extend_layers layers e) t = Some true.
Proof.
  intros H. induction layers as [ | [T d] layers IH]; [exact H | ].
  simpl. apply Is_Extend_preserve, IH.
Qed.

(** ** Error messages *)

Lemma call_Error_Extend (T : gotype) (d : denote T) (e : error) :
  e <> nil -> call_Error (xerrors.Extend T d e) = call_Error e.
Proof. destruct e as [v | ]; [reflexivity | contradiction]. Qed.

Lemma extend_layers_not_nil (layers : list payload) (e : error) :
  e <> nil -> extend_layers layers e <> nil.
Proof.
  intros H. induction layers as [ | [T d] layers IH]; [exact H | ].
  simpl. apply Extend_not_nil, IH.
Qed.

Lemma call_Error_extend_layers (layers : list payload) (e : error) :
  e <> nil -> call_Error (extend_layers layers e) = call_Error e.
Proof.
  intros H. induction layers as [ | [T d] layers IH]; [reflexivity | ].
  simpl. rewrite call_Error_Extend; [exact IH | ].
  apply extend_layers_not_nil, H.
Qed.

(** ** Classes *)

Lemma GetClass_Extend (c : denote errclass.Class) (e : error) :
  e <> nil -> errclass.GetClass (xerrors.Extend errclass.Class c e) = c.
Proof.
  destruct e as [v | ]; [intros _ | contradiction].
  rewrite Extend_Some. unfold errclass.GetClass.
  rewrite Extract_Extended. reflexivity.
Qed.

Lemma GetClass_unclassified (e : error) :
  e <> nil -> chain_has errclass.Class e = false ->
  errclass.GetClass e = errclass.Unknown.
Proof.
  destruct e as [v | ]; [intros _ H | contradiction].
  unfold errclass.GetClass. rewrite (Extract_miss _ _ H). reflexivity.
Qed.

Lemma WrapAs_default (e : error) (c : denote errclass.Class) :
  errclass.WrapAs e c [] = xerrors.Extend errclass.Class c e.
Proof. destruct e; reflexivity. Qed.

Lemma WrapAs_OnlyMoreSevere (e : error) (c : denote errclass.Class) :
  errclass.WrapAs e c [errclass.WithOnlyMoreSevere] =
  if Z.gtb c (errclass.GetClass e)
  then xerrors.Extend errclass.Class c e else e.
Proof.
  destruct e as [v | ]; [reflexivity | ].
  simpl. destruct (Z.gtb c _); reflexivity.
Qed.

(** ** Contexts and the store of maps *)

Section assign_all.
Import errcontext.

Lemma assign_all_length (h : heap) a context :
  length (assign_all h a context) = length h.
Proof.
  unfold assign_all. revert h.
  induction context as [ | x rest IH]; intros h; [reflexivity | ].
  simpl. rewrite IH. apply length_alter.
Qed.

Lemma assign_all_lookup_ne (h : heap) a b context :
  b <> a -> assign_all h a context !! b = h !! b.
Proof.
  intros Hb. unfold assign_all. revert h.
  induction context as [ | x rest IH]; intros h; [reflexivity | ].
  simpl. rewrite IH. apply list_lookup_alter_ne. congruence.
Qed.

Lemma assign_all_lookup_eq (h : heap) a m context :
  h !! a = Some m ->
  assign_all h a context !! a = Some (assign_map m context).
Proof.
  unfold assign_all, assign_map. revert h m.
  induction context as [ | x rest IH]; intros h m Hm; [exact Hm | ].
  simpl. apply IH. rewrite list_lookup_alter_eq, Hm. reflexivity.
Qed.

Lemma assign_map_lookup (m : gmap string slog.Value) context k :
  assign_map m context !! k =
  match last_write k context with
  | Some v => Some v
  | None => m !! k
  end.
Proof.
  unfold assign_map. revert m.
  induction context as [ | x rest IH]; intros m; [reflexivity | ].
  simpl. rewrite IH. destruct (last_write k rest); [reflexivity | ].
  destruct (String.eqb_spec (slog.Key x) k) as [-> | Hne].
  - apply lookup_insert_eq.
  - apply lookup_insert_ne, Hne.
Qed.

Lemma Get_Extend (c : denote Context) (e : error) :
  e <> nil -> Get (xerrors.Extend Context c e) = c.
Proof.
  destruct e as [v | ]; [intros _ | contradiction].
  rewrite Extend_Some. unfold Get. rewrite Extract_Extended. reflexivity.
Qed.

Lemma Get_no_context (e : error) : chain_has Context e = false -> Get e = None.
Proof.
  destruct e as [v | ]; [ | reflexivity].
  intros H. unfold Get. rewrite (Extract_miss _ _ H). reflexivity.
Qed.

(** The branch of [Add] that mutates the existing map. *)
Lemma Add_existing (h : heap) (e : error) a context :
  Get e = Some a -> Add h e context = (e, assign_all h a context).
Proof.
  intros Hg. destruct e as [v | ]; [ | discriminate].
  unfold Add. rewrite Hg. destruct context; reflexivity.
Qed.

(** The branch of [Add] that allocates a map and wraps. *)
Lemma Add_fresh (h : heap) (e : error) x context :
  e <> nil -> Get e = None ->
  Add h e (x :: context) =
  (xerrors.Extend Context (Some (length h)) e,
   assign_all (h ++ [∅]) (length h) (x :: context)).
Proof.
  intros Hn Hg. destruct e as [v | ]; [ | contradiction].
  unfold Add. rewrite Hg. reflexivity.
Qed.

(** After [Add] with at least one attribute the error carries a map:
    the one it had, or the one just allocated. *)
Lemma Add_attaches_map (h : heap) (e : error) x context :
  e <> nil ->
  (forall a, Get e = Some a -> (a < length h)%nat) ->
  exists a,
    Get (Add h e (x :: context)).1 = Some a /\
    (a < length (Add h e (x :: context)).2)%nat.
Proof.
  intros Hn Hwf. destruct (Get e) as [a | ] eqn:Hg.
  - exists a. rewrite (Add_existing _ _ _ _ Hg). cbn [fst snd].
    split; [exact Hg | ]. rewrite assign_all_length. apply Hwf. reflexivity.
  - exists (length h). rewrite (Add_fresh _ _ _ _ Hn Hg). cbn [fst snd].
    split; [apply Get_Extend, Hn | ].
    rewrite assign_all_length, length_app. simpl. lia.
Qed.

(** Two attachments to an error without context: one wrapper, one
    map holding both writes. *)
Lemma Add_twice (h : heap) (e : error) x xs y ys :
  e <> nil -> chain_has Context e = false ->
  let r1 := Add h e (x :: xs) in
  let r2 := Add r1.2 r1.1 (y :: ys) in
  r1.1 = xerrors.Extend Context (Some (length h)) e /\
  r2.1 = r1.1 /\
  r2.2 !! length h = Some (assign_map (assign_map ∅ (x :: xs)) (y :: ys)).
Proof.
  intros Hn Hc.
  rewrite (Add_fresh h e x xs Hn (Get_no_context e Hc)). cbn zeta.
  cbn [fst snd].
  rewrite (Add_existing _ _ (length h)) by (apply Get_Extend, Hn).
  repeat split. cbn [snd].
  apply assign_all_lookup_eq, assign_all_lookup_eq.
  apply list_lookup_middle. reflexivity.
Qed.

Lemma Flatten_at (h : heap) a m :
  h !! a = Some m ->
  Flatten h (Some a) =
  (fun key => slog.mkAttr key (default slog.ZeroValue (m !! key)))
    <$> slices_Sorted (maps_Keys m).
Proof. intros H. unfold Flatten. cbn [deref]. rewrite H. reflexivity. Qed.

End assign_all.

(** * The properties of the specification *)

(** ** Round trip *)

(** C1, as stated, fails at the nil error: [Extend] of nil is nil, and
    [Extract] of nil finds nothing. *)
Lemma round_trip_fails_at_nil :
  xerrors.Extract TInt (xerrors.Extend TInt 5 nil) <> (5, true).
Proof. vm_compute. discriminate. Qed.

(** C1 (amended): for every non-nil error [e] and every value [d] of
    type [T], [Extract[T](Extend(d, e))] is [(d, true)]. *)
Theorem Extract_Extend_round_trip (T : gotype) (d : denote T) (e : error) :
  e <> nil -> xerrors.Extract T (xerrors.Extend T d e) = (d, true).
Proof.
  destruct e as [v | ]; [intros _ | contradiction].
  rewrite Extend_Some. apply Extract_Extended.
Qed.

Lemma Extract_Extend_round_trip_witness :
  xerrors.Extract errclass.Class
    (xerrors.Extend errclass.Class errclass.Panic (Some errTest))
  = (errclass.Panic, true).
Proof. apply Extract_Extend_round_trip. discriminate. Defined.

(** ** Nearest wins *)

(** C2, as stated, fails at the nil error: both extensions return nil. *)
Lemma nearest_wins_fails_at_nil :
  xerrors.Extract TInt (xerrors.Extend TInt 2 (xerrors.Extend TInt 1 nil))
  <> (2, true).
Proof. vm_compute. discriminate. Qed.

(** C2 (amended): for every non-nil error [e] and values [d1], [d2] of
    one type [T], [Extract[T](Extend(d2, Extend(d1, e)))] is
    [(d2, true)]; the inner wrapper is the immediate cause of the outer
    one, and extracting from it yields [d1]. *)
Theorem Extract_nearest_wins (T : gotype) (d1 d2 : denote T) (e : error) :
  e <> nil ->
  let inner := xerrors.Extend T d1 e in
  let outer := xerrors.Extend T d2 inner in
  xerrors.Extract T outer = (d2, true) /\
  errors.Unwrap outer = inner /\
  xerrors.Extract T (errors.Unwrap outer) = (d1, true).
Proof.
  destruct e as [v | ]; [intros _ | contradiction].
  cbn zeta. rewrite !Extend_Some. cbn [errors.Unwrap unwrap_of].
  rewrite !Extract_Extended. auto.
Qed.

Lemma Extract_nearest_wins_witness :
  let inner := xerrors.Extend TString "early" (Some errTest) in
  let outer := xerrors.Extend TString "late" inner in
  xerrors.Extract TString outer = ("late", true) /\
  errors.Unwrap outer = inner /\
  xerrors.Extract TString (errors.Unwrap outer) = ("early", true).
Proof. apply Extract_nearest_wins. discriminate. Defined.

(** ** The core never fails *)

(** C3: [Extend(data, nil)] is nil, and [Extract[T]] of nil or of an
    error whose chain has no [ExtendedError[T]] link is the zero value
    of [T] with [false].  [Extract] is a total function: it has a
    result on every error. *)
Theorem Extend_Extract_never_fail (T : gotype) (data : denote T) (e : error) :
  chain_has T e = false ->
  xerrors.Extend T data nil = nil /\
  xerrors.Extract T nil = (zero T, false) /\
  xerrors.Extract T e = (zero T, false).
Proof.
  intros H. split; [reflexivity | ]. split; [reflexivity | ].
  apply Extract_miss, H.
Qed.

Lemma Extend_Extract_never_fail_witness :
  let e := Some (wrapError "*fmt.wrapError" 1%nat "handler: this is a test error"
                   (xerrors.Extend TString "payload" (Some errTest))) in
  xerrors.Extend errclass.Class errclass.Transient nil = nil /\
  xerrors.Extract errclass.Class nil = (errclass.Unknown, false) /\
  xerrors.Extract errclass.Class e = (errclass.Unknown, false).
Proof. apply Extend_Extract_never_fail. reflexivity. Defined.

(** ** Foreign wrapper kinds *)

(** C4, as stated, fails at the nil error: [Extend] returns nil, and
    neither the classifier, which wraps nothing then, nor a formatted
    wrapper around that nil carries the payload. *)
Lemma foreign_wrap_fails_at_nil :
  let d : denote errcontext.Context := Some 0%nat in
  let classify := fun x => errclass.WrapAs x errclass.Transient [] in
  let format := fun x => Some (wrapError "*fmt.wrapError" 1%nat "handler" x) in
  xerrors.Extract errcontext.Context
    (classify (xerrors.Extend errcontext.Context d nil)) <> (d, true) /\
  xerrors.Extract errcontext.Context
    (format (xerrors.Extend errcontext.Context d nil)) <> (d, true).
Proof. split; vm_compute; discriminate. Qed.

(** C4 (amended): for every non-nil error [e1], payload [d] of type [T]
    and link [w] of any other kind whose single cause is
    [Extend(d, e1)], [Extract[T](w)] is [(d, true)]. *)
Theorem Extract_skips_foreign_wrapper
    (T : gotype) (d : denote T) (e1 : error) (w : err_val) :
  e1 <> nil ->
  is_ExtendedError T w = false ->
  unwrap_of w = UnwrapOne (xerrors.Extend T d e1) ->
  xerrors.Extract T (Some w) = (d, true).
Proof.
  destruct e1 as [v | ]; [intros _ | contradiction].
  rewrite Extend_Some. intros Hk Hu.
  rewrite (Extract_skip _ _ _ Hk Hu). apply Extract_Extended.
Qed.

Lemma Extract_skips_foreign_wrapper_witness :
  xerrors.Extract errcontext.Context
    (errclass.WrapAs
       (xerrors.Extend errcontext.Context (Some 0%nat) (Some errTest))
       errclass.Transient [])
  = (Some 0%nat, true).
Proof.
  apply (Extract_skips_foreign_wrapper errcontext.Context (Some 0%nat)
           (Some errTest)).
  - discriminate.
  - reflexivity.
  - reflexivity.
Defined.

(** Two instances: a formatted wrapper, and an extension at another
    payload type. *)
Lemma Extract_through_wrapError
    (T : gotype) (d : denote T) (e1 : error) k p msg :
  e1 <> nil ->
  xerrors.Extract T (Some (wrapError k p msg (xerrors.Extend T d e1)))
  = (d, true).
Proof.
  destruct e1 as [v | ]; [intros _ | contradiction].
  rewrite Extend_Some.
  rewrite (Extract_skip T _ (Extended T (Some v) d)) by reflexivity.
  apply Extract_Extended.
Qed.

Lemma Extract_through_other_payload
    (T U : gotype) (d : denote T) (u : denote U) (e1 : error) :
  gotype_eqb U T = false -> e1 <> nil ->
  xerrors.Extract T (xerrors.Extend U u (xerrors.Extend T d e1)) = (d, true).
Proof.
  intros HU. destruct e1 as [v | ]; [intros _ | contradiction].
  rewrite !Extend_Some.
  rewrite (Extract_skip T _ (Extended T (Some v) d)) by (exact HU || reflexivity).
  apply Extract_Extended.
Qed.

(** ** Chain preservation *)

(** C5, as stated, fails at an error whose dynamic type is not
    comparable: [errors.Is] never matches a target of such a type, and
    [ExtendedError[Context]] carries a map. *)
Lemma identity_match_fails_on_map_payload :
  let e := xerrors.Extend errcontext.Context (Some 0%nat) (Some errTest) in
  errors.Is (xerrors.Extend errclass.Class errclass.Transient e) e
  = Some false.
Proof. vm_compute. reflexivity. Qed.

(** C5 (amended): for every error [e] that the identity match matches
    against itself ([errors.Is(e, e)] holds), the match still succeeds
    against [Extend(d, e)], through any number of extension layers. *)
Theorem Is_preserved_by_Extend
    (T : gotype) (d : denote T) (layers : list payload) (e : error) :
  errors.Is e e = Some true ->
  errors.Is (xerrors.Extend T d e) e = Some true /\
  errors.Is (extend_layers layers e) e = Some true.
Proof.
  intros H. split.
  - apply Is_Extend_preserve, H.
  - apply Is_extend_layers_preserve, H.
Qed.

Lemma Is_preserved_by_Extend_witness :
  let layers : list payload :=
    [existT errclass.Class errclass.Persistent;
     existT errcontext.Context (Some 0%nat);
     existT TString "request"] in
  errors.Is (xerrors.Extend errclass.Class errclass.Transient (Some errTest))
            (Some errTest) = Some true /\
  errors.Is (extend_layers layers (Some errTest)) (Some errTest) = Some true.
Proof. apply Is_preserved_by_Extend. reflexivity. Defined.

(** ** Type distinctness *)

(** C6: for every error [e] whose chain has no [ExtendedError[B]], and
    every type [A] other than [B] (the two may share their underlying
    type), [Extract[B](Extend(a, e))] reports [false]. *)
Theorem Extract_distinguishes_types
    (A B : gotype) (a : denote A) (e : error) :
  gotype_eqb A B = false ->
  chain_has B e = false ->
  xerrors.Extract B (xerrors.Extend A a e) = (zero B, false).
Proof.
  intros HAB He. apply Extract_miss.
  destruct e as [v | ]; [ | reflexivity].
  rewrite Extend_Some. cbn [chain_has link_in_chain is_ExtendedError].
  rewrite HAB. exact He.
Qed.

Lemma Extract_distinguishes_types_witness :
  xerrors.Extract (TNamed "B" TInt)
    (xerrors.Extend (TNamed "A" TInt) 7 (Some errTest))
  = (0, false).
Proof.
  apply (Extract_distinguishes_types (TNamed "A" TInt) (TNamed "B" TInt)).
  - reflexivity.
  - reflexivity.
Defined.

(** A comparable target that nests a value of a non-comparable type
    makes the comparison itself panic. *)
Lemma identity_match_panics_on_nested_map_payload :
  let inner := xerrors.Extend errcontext.Context (Some 0%nat) (Some errTest) in
  let e := xerrors.Extend errclass.Class errclass.Transient inner in
  errors.Is e e = None.
Proof. vm_compute. reflexivity. Qed.

(** ** Repeated context attachment *)

(** C7, as stated, fails at an error whose [Context] payload is the nil
    map: the error is not nil and [Extract] finds the payload, but [Get]
    returns nil, so [Add] allocates a map and adds a second wrapper. *)
Lemma Add_wraps_again_over_nil_context :
  let err := xerrors.Extend errcontext.Context None (Some errTest) in
  let r := errcontext.Add [] err [slog.String "one" "one"] in
  err <> nil /\
  xerrors.Extract errcontext.Context err = (None, true) /\
  r.1 = xerrors.Extend errcontext.Context (Some 0%nat) err /\
  r.1 <> err /\
  errors.Unwrap r.1 = err.
Proof. vm_compute. repeat split; discriminate. Qed.

(** C7 (amended): for every error whose context is a map, that is, for
    which [Get(err)] is not nil (as it is after any earlier [Add] with
    attributes, see [Add_attaches_map]), a further [Add] returns [err]
    itself and writes the attributes into that map, later entries
    overriding earlier ones and all other maps untouched.  Adding [one] and then [two] to an
    error [E] without context gives the flattened context
    [[(one, one); (two, two)]] on a single wrapper whose immediate cause
    [E] has no context; adding [two = two] and then [two = three] leaves
    [(two, three)] only. *)
Theorem Add_mutates_in_place
    (h : errcontext.heap) (err : error) (a : addr)
    (m : gmap string slog.Value) (context : list slog.Attr)
    (h0 : errcontext.heap) (E : error) :
  errcontext.Get err = Some a ->
  h !! a = Some m ->
  E <> nil ->
  chain_has errcontext.Context E = false ->
  (let r := errcontext.Add h err context in
   r.1 = err /\
   length r.2 = length h /\
   (forall b, b <> a -> r.2 !! b = h !! b) /\
   (forall k,
      errcontext.deref r.2 (Some a) !! k =
      match last_write k context with
      | Some v => Some v
      | None => m !! k
      end)) /\
  (let r1 := errcontext.Add h0 E [slog.String "one" "one"] in
   let r2 := errcontext.Add r1.2 r1.1 [slog.String "two" "two"] in
   errcontext.Flatten r2.2 (errcontext.Get r2.1) =
     [slog.String "one" "one"; slog.String "two" "two"] /\
   r2.1 = r1.1 /\
   errors.Unwrap r2.1 = E /\
   xerrors.Extract errcontext.Context (errors.Unwrap r2.1) = (None, false)) /\
  (let r1 := errcontext.Add h0 E [slog.String "two" "two"] in
   let r2 := errcontext.Add r1.2 r1.1 [slog.String "two" "three"] in
   errcontext.Flatten r2.2 (errcontext.Get r2.1) =
     [slog.String "two" "three"]).
Proof.
  intros Hg Hm HE Hc. split; [ | split].
  - cbn zeta. rewrite (Add_existing _ _ _ _ Hg). cbn [fst snd].
    split; [reflexivity | ].
    split; [apply assign_all_length | ].
    split; [intros b Hb; apply assign_all_lookup_ne, Hb | ].
    intros k. cbn [errcontext.deref].
    rewrite (assign_all_lookup_eq _ _ _ _ Hm). cbn [default].
    apply assign_map_lookup.
  - intros r1 r2.
    destruct (Add_twice h0 E (slog.String "one" "one") []
                (slog.String "two" "two") [] HE Hc) as (H1 & H2 & H3).
    fold r1 in H1, H2, H3. fold r2 in H2, H3.
    rewrite H2, H1, (Get_Extend _ _ HE), (Flatten_at _ _ _ H3).
    split; [vm_compute; reflexivity | ].
    split; [reflexivity | ].
    destruct E as [v | ]; [ | contradiction].
    split; [reflexivity | ].
    change (xerrors.Extract errcontext.Context (Some v) = (None, false)).
    apply (Extract_miss errcontext.Context), Hc.
  - intros r1 r2.
    destruct (Add_twice h0 E (slog.String "two" "two") []
                (slog.String "two" "three") [] HE Hc) as (H1 & H2 & H3).
    fold r1 in H1, H2, H3. fold r2 in H2, H3.
    rewrite H2, H1, (Get_Extend _ _ HE), (Flatten_at _ _ _ H3).
    vm_compute. reflexivity.
Qed.

Lemma Add_mutates_in_place_witness :
  let E := Some errTest in
  let h := (errcontext.Add [] E [slog.String "one" "one"]).2 in
  let err := (errcontext.Add [] E [slog.String "one" "one"]).1 in
  let m : gmap string slog.Value := {[ "one" := slog.StringValue "one" ]} in
  let context := [slog.String "two" "two"; slog.String "two" "three"] in
  (errcontext.Get err = Some 0%nat /\ h !! 0%nat = Some m) /\
  (let r := errcontext.Add h err context in
   r.1 = err /\
   length r.2 = length h /\
   (forall b, b <> 0%nat -> r.2 !! b = h !! b) /\
   (forall k,
      errcontext.deref r.2 (Some 0%nat) !! k =
      match last_write k context with
      | Some v => Some v
      | None => m !! k
      end)) /\
  (let r1 := errcontext.Add [] E [slog.String "one" "one"] in
   let r2 := errcontext.Add r1.2 r1.1 [slog.String "two" "two"] in
   errcontext.Flatten r2.2 (errcontext.Get r2.1) =
     [slog.String "one" "one"; slog.String "two" "two"] /\
   r2.1 = r1.1 /\
   errors.Unwrap r2.1 = E /\
   xerrors.Extract errcontext.Context (errors.Unwrap r2.1) = (None, false)) /\
  (let r1 := errcontext.Add [] E [slog.String "two" "two"] in
   let r2 := errcontext.Add r1.2 r1.1 [slog.String "two" "three"] in
   errcontext.Flatten r2.2 (errcontext.Get r2.1) =
     [slog.String "two" "three"]).
Proof.
  intros E h err m context.
  assert (Hg : errcontext.Get err = Some 0%nat) by reflexivity.
  assert (Hm : h !! 0%nat = Some m) by (vm_compute; reflexivity).
  split; [split; assumption | ].
  apply (Add_mutates_in_place h err 0%nat m context [] E Hg Hm).
  - discriminate.
  - reflexivity.
Defined.

(** ** Severity escalation *)

(** C8: under [WithOnlyMoreSevere], [WrapAs] wraps exactly when the
    candidate class is strictly greater than the current class and
    otherwise returns the error unchanged.  An error classified as
    [Transient] and reclassified with [Persistent] under that policy has
    class [Persistent]; reclassifying the result with [Transient] under
    the same policy changes nothing. *)
Theorem WrapAs_escalates_without_downgrade
    (e : error) (class : denote errclass.Class) :
  e <> nil ->
  errclass.WrapAs e class [errclass.WithOnlyMoreSevere] =
    (if Z.gtb class (errclass.GetClass e)
     then xerrors.Extend errclass.Class class e
     else e) /\
  (let e1 := errclass.WrapAs e errclass.Transient [] in
   let e2 := errclass.WrapAs e1 errclass.Persistent
               [errclass.WithOnlyMoreSevere] in
   let e3 := errclass.WrapAs e2 errclass.Transient
               [errclass.WithOnlyMoreSevere] in
   errclass.GetClass e1 = errclass.Transient /\
   e2 = xerrors.Extend errclass.Class errclass.Persistent e1 /\
   errclass.GetClass e2 = errclass.Persistent /\
   e3 = e2 /\
   errclass.GetClass e3 = errclass.Persistent).
Proof.
  intros He. split; [apply WrapAs_OnlyMoreSevere | ].
  intros e1 e2 e3.
  assert (H1 : errclass.GetClass e1 = errclass.Transient).
  { unfold e1. rewrite WrapAs_default. apply GetClass_Extend, He. }
  assert (N1 : e1 <> nil).
  { unfold e1. rewrite WrapAs_default. apply Extend_not_nil, He. }
  assert (E2 : e2 = xerrors.Extend errclass.Class errclass.Persistent e1).
  { unfold e2. rewrite WrapAs_OnlyMoreSevere, H1. reflexivity. }
  assert (H2 : errclass.GetClass e2 = errclass.Persistent).
  { rewrite E2. apply GetClass_Extend, N1. }
  assert (E3 : e3 = e2).
  { unfold e3. rewrite WrapAs_OnlyMoreSevere, H2. reflexivity. }
  rewrite E3. auto.
Qed.

Lemma WrapAs_escalates_without_downgrade_witness :
  let e := Some (errorString 3%nat "plain") in
  errclass.WrapAs e errclass.Panic [errclass.WithOnlyMoreSevere] =
    (if Z.gtb errclass.Panic (errclass.GetClass e)
     then xerrors.Extend errclass.Class errclass.Panic e
     else e) /\
  (let e1 := errclass.WrapAs e errclass.Transient [] in
   let e2 := errclass.WrapAs e1 errclass.Persistent
               [errclass.WithOnlyMoreSevere] in
   let e3 := errclass.WrapAs e2 errclass.Transient
               [errclass.WithOnlyMoreSevere] in
   errclass.GetClass e1 = errclass.Transient /\
   e2 = xerrors.Extend errclass.Class errclass.Persistent e1 /\
   errclass.GetClass e2 = errclass.Persistent /\
   e3 = e2 /\
   errclass.GetClass e3 = errclass.Persistent).
Proof. apply WrapAs_escalates_without_downgrade. discriminate. Defined.

(** ** Message transparency *)

(** C9: for every non-nil error [e] and payload [d],
    [Extend(d, e).Error()] is [e.Error()], and so is the message after
    any number of extensions. *)
Theorem Error_unchanged_by_Extend
    (T : gotype) (d : denote T) (layers : list payload) (e : error) :
  e <> nil ->
  call_Error (xerrors.Extend T d e) = call_Error e /\
  call_Error (extend_layers layers e) = call_Error e.
Proof.
  intros H. split.
  - apply call_Error_Extend, H.
  - apply call_Error_extend_layers, H.
Qed.

Lemma Error_unchanged_by_Extend_witness :
  let layers : list payload :=
    [existT errcontext.Context (Some 0%nat);
     existT errclass.Class errclass.Transient] in
  call_Error (xerrors.Extend TString "request" (Some errTest))
    = Some "this is a test error" /\
  call_Error (extend_layers layers (Some errTest))
    = Some "this is a test error".
Proof.
  apply (Error_unchanged_by_Extend TString "request" _ (Some errTest)).
  discriminate.
Defined.

(** ** GetClass *)

(** C10: [GetClass(nil)] is [Nil], which is -1 and below [Unknown];
    [GetClass] of a non-nil error whose chain carries no [Class] is
    [Unknown], which is 0; either way the result is one of the five
    declared classes.  [GetClass] is a total function. *)
Theorem GetClass_nil_and_unclassified (e : error) :
  chain_has errclass.Class e = false ->
  (errclass.GetClass nil = errclass.Nil /\
   errclass.Nil = -1 /\ errclass.Nil < errclass.Unknown) /\
  (e <> nil -> errclass.GetClass e = errclass.Unknown) /\
  errclass.Unknown = 0 /\
  In (errclass.GetClass e)
     [errclass.Nil; errclass.Unknown; errclass.Transient;
      errclass.Persistent; errclass.Panic].
Proof.
  intros H. split; [repeat split | ].
  split; [intros He; apply GetClass_unclassified; assumption | ].
  split; [reflexivity | ].
  destruct e as [v | ].
  - rewrite GetClass_unclassified by (discriminate || assumption).
    right. left. reflexivity.
  - left. reflexivity.
Qed.

Lemma GetClass_nil_and_unclassified_witness :
  let e := xerrors.Extend errcontext.Context (Some 0%nat) (Some errTest) in
  (errclass.GetClass nil = errclass.Nil /\
   errclass.Nil = -1 /\ errclass.Nil < errclass.Unknown) /\
  (e <> nil -> errclass.GetClass e = errclass.Unknown) /\
  errclass.Unknown = 0 /\
  In (errclass.GetClass e)
     [errclass.Nil; errclass.Unknown; errclass.Transient;
      errclass.Persistent; errclass.Panic].
Proof. apply GetClass_nil_and_unclassified. reflexivity. Defined.


(** * Further properties of the code *)

(** ** The search of Extract *)

Lemma is_ExtendedError_assert (T : gotype) (e : err_val) :
  is_ExtendedError T e = true ->
  exists x, errors.assertExtended T e = Some x.
Proof.
  destruct e as [ | | | T' c d]; simpl; try discriminate.
  intros H. apply gotype_eqb_eq in H as ->.
  rewrite cast_refl. eauto.
Qed.

Lemma asType_found (T : gotype) (e : err_val) :
  (errors.asType T e).2 = link_in_chain T e.
Proof.
  induction e as [p s | k p msg c IH | p errs IH | T' c d IH]
    using err_val_chain_ind; cbn [link_in_chain errors.asType];
    destruct (is_ExtendedError T _) eqn:Hk;
    try (destruct (is_ExtendedError_assert _ _ Hk) as [x ->]; reflexivity);
    rewrite (assertExtended_foreign _ _ Hk); cbn [orb].
  - reflexivity.
  - destruct c as [c' | ]; [apply (IH c' eq_refl) | reflexivity].
  - clear Hk. induction IH as [ | x rest Hx _ IHrest]; [reflexivity | ].
    rewrite <- Hx. destruct (errors.asType T x).2 eqn:E; [exact E | exact IHrest].
  - destruct c as [c' | ]; [apply (IH c' eq_refl) | reflexivity].
Qed.

(** X1: [Extract[T]] reports [true] exactly when some link of the chain
    is an [ExtendedError[T]]. *)
Theorem Extract_found_iff_link (T : gotype) (e : error) :
  (xerrors.Extract T e).2 = chain_has T e.
Proof.
  destruct e as [v | ]; [ | reflexivity].
  unfold xerrors.Extract, errors.AsType. cbn [chain_has].
  rewrite <- asType_found. destruct (errors.asType T v). reflexivity.
Qed.

Lemma Extract_at_Extended (T U : gotype) (c : error) (u : denote U) :
  xerrors.Extract T (Some (Extended U c u)) =
  match cast U T u with
  | Some d => (d, true)
  | None => xerrors.Extract T c
  end.
Proof.
  unfold xerrors.Extract, errors.AsType. cbn [errors.asType errors.assertExtended].
  destruct (cast U T u); [reflexivity | ].
  destruct c; reflexivity.
Qed.

(** X2: on a non-nil error extended any number of times, [Extract[T]]
    yields the outermost payload of type [T] among the extensions, and
    what the error itself yields when there is none. *)
Theorem Extract_extend_layers
    (T : gotype) (layers : list payload) (e : error) :
  e <> nil ->
  xerrors.Extract T (extend_layers layers e) =
  match first_payload T layers with
  | Some d => (d, true)
  | None => xerrors.Extract T e
  end.
Proof.
  intros He. induction layers as [ | [U u] layers IH]; [reflexivity | ].
  cbn [extend_layers foldr first_payload projT1 projT2].
  change (foldr _ e layers) with (extend_layers layers e).
  destruct (extend_layers layers e) as [v | ] eqn:E.
  - rewrite Extend_Some, Extract_at_Extended.
    destruct (cast U T u); [reflexivity | exact IH].
  - exfalso. apply (extend_layers_not_nil layers e He). exact E.
Qed.

Lemma Extract_extend_layers_witness :
  let layers : list payload :=
    [existT TString "outer";
     existT errclass.Class errclass.Persistent;
     existT errclass.Class errclass.Transient] in
  xerrors.Extract errclass.Class (extend_layers layers (Some errTest)) =
  match first_payload errclass.Class layers with
  | Some d => (d, true)
  | None => xerrors.Extract errclass.Class (Some errTest)
  end.
Proof. apply Extract_extend_layers. discriminate. Defined.

Lemma Extract_Extend_skip (T U : gotype) (u : denote U) (e : error) :
  gotype_eqb U T = false ->
  xerrors.Extract T (xerrors.Extend U u e) = xerrors.Extract T e.
Proof.
  intros H. destruct e as [v | ]; [ | reflexivity].
  rewrite Extend_Some, Extract_at_Extended.
  rewrite cast_neq; [reflexivity | ].
  intros ->. rewrite gotype_eqb_refl in H. discriminate.
Qed.

(** X3: extending with a payload of another type changes nothing for
    [Extract[T]], on any error, nil included. *)
Theorem Extract_Extend_other_type
    (T U : gotype) (u : denote U) (e : error) :
  gotype_eqb U T = false ->
  xerrors.Extract T (xerrors.Extend U u e) = xerrors.Extract T e.
Proof. apply Extract_Extend_skip. Qed.

Lemma Extract_Extend_other_type_witness :
  let e := xerrors.Extend errclass.Class errclass.Panic (Some errTest) in
  xerrors.Extract errclass.Class
    (xerrors.Extend errcontext.Context (Some 0%nat) e)
  = xerrors.Extract errclass.Class e.
Proof. apply Extract_Extend_other_type. reflexivity. Defined.

(** X4: unwrapping once per extension gives back the extended error. *)
Theorem Unwrap_extend_layers (layers : list payload) (e : error) :
  Nat.iter (length layers) errors.Unwrap (extend_layers layers e) = e.
Proof.
  induction layers as [ | [U u] layers IH]; [reflexivity | ].
  cbn [length extend_layers foldr projT1 projT2].
  change (foldr _ e layers) with (extend_layers layers e).
  rewrite Nat.iter_succ_r.
  destruct (extend_layers layers e) as [v | ]; exact IH.
Qed.

(** X5: in a multi-cause error the parts are searched in order: the
    first part whose chain has an [ExtendedError[T]] decides, so
    [GetClass] of a join is the class of its first classified part. *)
Theorem Extract_join_first_part
    (T : gotype) (p : addr) (x : err_val) (rest : list err_val) :
  xerrors.Extract T (Some (joinError p (x :: rest))) =
    (if link_in_chain T x
     then xerrors.Extract T (Some x)
     else xerrors.Extract T (Some (joinError p rest))) /\
  (link_in_chain errclass.Class x = true ->
   errclass.GetClass (Some (joinError p (x :: rest))) =
   errclass.GetClass (Some x)).
Proof.
  assert (H : forall U, xerrors.Extract U (Some (joinError p (x :: rest))) =
    if link_in_chain U x then xerrors.Extract U (Some x)
    else xerrors.Extract U (Some (joinError p rest))).
  { intros U. unfold xerrors.Extract, errors.AsType.
    cbn [errors.asType errors.assertExtended].
    rewrite <- asType_found.
    destruct (errors.asType U x) as [r ok]. destruct ok; reflexivity. }
  split; [apply H | ].
  intros Hx. unfold errclass.GetClass. rewrite H, Hx. reflexivity.
Qed.

Lemma Extract_join_first_part_witness :
  let a := Extended errclass.Class (Some errTest) errclass.Transient in
  let b := Extended errclass.Class (Some errTest) errclass.Panic in
  errclass.GetClass (Some (joinError 9%nat [a; b])) = errclass.Transient /\
  errclass.GetClass (Some (joinError 9%nat [b; a])) = errclass.Panic.
Proof.
  intros a b. split.
  - apply (proj2 (Extract_join_first_part errclass.Class 9%nat a [b])).
    reflexivity.
  - apply (proj2 (Extract_join_first_part errclass.Class 9%nat b [a])).
    reflexivity.
Defined.

(** ** The classifier *)

(** X6: the five declared classes have five different names, and a
    value has the name of [Unknown] exactly when it is none of [Nil],
    [Transient], [Persistent] and [Panic]. *)
Theorem Class_String_names (c1 c2 : denote errclass.Class) :
  In c1 [errclass.Nil; errclass.Unknown; errclass.Transient;
         errclass.Persistent; errclass.Panic] ->
  In c2 [errclass.Nil; errclass.Unknown; errclass.Transient;
         errclass.Persistent; errclass.Panic] ->
  (errclass.Class_String c1 = errclass.Class_String c2 -> c1 = c2) /\
  (forall c : denote errclass.Class,
     errclass.Class_String c = "unknown"%string <->
     ~ In c [errclass.Nil; errclass.Transient;
             errclass.Persistent; errclass.Panic]).
Proof.
  intros H1 H2. split.
  - simpl in H1, H2.
    destruct H1 as [<- | [<- | [<- | [<- | [<- | []]]]]];
      destruct H2 as [<- | [<- | [<- | [<- | [<- | []]]]]];
      vm_compute; congruence.
  - intros c. unfold errclass.Class_String. simpl In.
    destruct (Z.eqb_spec c errclass.Nil) as [-> | N1]; [split; [discriminate | tauto] | ].
    destruct (Z.eqb_spec c errclass.Panic) as [-> | N2]; [split; [discriminate | tauto] | ].
    destruct (Z.eqb_spec c errclass.Transient) as [-> | N3]; [split; [discriminate | tauto] | ].
    destruct (Z.eqb_spec c errclass.Persistent) as [-> | N4]; [split; [discriminate | tauto] | ].
    split; [ | reflexivity]. intros _ [H | [H | [H | [H | []]]]]; congruence.
Qed.

Lemma Class_String_names_witness :
  (errclass.Class_String errclass.Transient =
   errclass.Class_String errclass.Panic -> errclass.Transient = errclass.Panic) /\
  (forall c : denote errclass.Class,
     errclass.Class_String c = "unknown"%string <->
     ~ In c [errclass.Nil; errclass.Transient;
             errclass.Persistent; errclass.Panic]).
Proof.
  apply (Class_String_names errclass.Transient errclass.Panic); simpl; tauto.
Defined.

Lemma WrapAs_cases (e : error) (c : denote errclass.Class)
    (opts : list errclass.WrapOption) :
  errclass.WrapAs e c opts = e \/
  errclass.WrapAs e c opts = xerrors.Extend errclass.Class c e.
Proof.
  destruct e as [v | ]; [ | left; reflexivity].
  unfold errclass.WrapAs.
  destruct (errclass.restriction _); [right; reflexivity | | ];
    match goal with |- context [if ?b then _ else _] => destruct b end; auto.
Qed.

Lemma Class_is_not_Context :
  gotype_eqb errclass.Class errcontext.Context = false.
Proof. reflexivity. Qed.

Lemma Context_is_not_Class :
  gotype_eqb errcontext.Context errclass.Class = false.
Proof. reflexivity. Qed.

(** X7: [WrapAs] returns nil exactly on the nil error, whatever the
    class and the options. *)
Theorem WrapAs_nil_iff (e : error) (c : denote errclass.Class)
    (opts : list errclass.WrapOption) :
  errclass.WrapAs e c opts = nil <-> e = nil.
Proof.
  split.
  - destruct e as [v | ]; [ | reflexivity].
    destruct (WrapAs_cases (Some v) c opts) as [-> | ->]; discriminate.
  - intros ->. reflexivity.
Qed.

(** X8: under [WithOnlyUnknown] the class after [WrapAs] is the new
    class when the error's class was [Unknown] and the old class
    otherwise, also when the new class is more severe. *)
Theorem WrapAs_OnlyUnknown_class (e : error) (c : denote errclass.Class) :
  errclass.GetClass (errclass.WrapAs e c [errclass.WithOnlyUnknown]) =
  if Z.eqb (errclass.GetClass e) errclass.Unknown
  then c else errclass.GetClass e.
Proof.
  destruct e as [v | ]; [ | reflexivity].
  unfold errclass.WrapAs. cbn [fold_left errclass.WithOnlyUnknown errclass.restriction].
  destruct (Z.eqb _ errclass.Unknown); [ | reflexivity].
  apply GetClass_Extend. discriminate.
Qed.

(** X9: under [WithOnlyMoreSevere] the class of a non-nil error after
    [WrapAs] is the greater of the new and the old class. *)
Theorem WrapAs_OnlyMoreSevere_max (e : error) (c : denote errclass.Class) :
  e <> nil ->
  errclass.GetClass (errclass.WrapAs e c [errclass.WithOnlyMoreSevere]) =
  Z.max c (errclass.GetClass e).
Proof.
  intros He. rewrite WrapAs_OnlyMoreSevere.
  destruct (Z.gtb_spec c (errclass.GetClass e)).
  - rewrite GetClass_Extend by exact He. lia.
  - lia.
Qed.

Lemma WrapAs_OnlyMoreSevere_max_witness :
  let e := errclass.WrapAs (Some errTest) errclass.Persistent [] in
  errclass.GetClass (errclass.WrapAs e errclass.Transient
                       [errclass.WithOnlyMoreSevere]) =
  Z.max errclass.Transient (errclass.GetClass e).
Proof. apply WrapAs_OnlyMoreSevere_max. discriminate. Defined.

(** X10: under [WithOnlyMoreSevere], classifying twice with the same
    class adds no second wrapper. *)
Theorem WrapAs_OnlyMoreSevere_idempotent
    (e : error) (c : denote errclass.Class) :
  errclass.WrapAs (errclass.WrapAs e c [errclass.WithOnlyMoreSevere]) c
    [errclass.WithOnlyMoreSevere] =
  errclass.WrapAs e c [errclass.WithOnlyMoreSevere].
Proof.
  destruct e as [v | ]; [ | reflexivity].
  rewrite (WrapAs_OnlyMoreSevere (Some v)).
  destruct (Z.gtb_spec c (errclass.GetClass (Some v))) as [Hgt | Hle].
  - rewrite WrapAs_OnlyMoreSevere, GetClass_Extend by discriminate.
    rewrite Z.gtb_ltb, Z.ltb_irrefl. reflexivity.
  - rewrite WrapAs_OnlyMoreSevere.
    destruct (Z.gtb_spec c (errclass.GetClass (Some v))); [lia | reflexivity].
Qed.

(** X11: of several options the last one decides, and no option at all
    is [WithUnrestricted]. *)
Theorem WrapAs_last_option_wins
    (e : error) (c : denote errclass.Class)
    (opts : list errclass.WrapOption) (o : errclass.WrapOption) :
  In o [errclass.WithUnrestricted; errclass.WithOnlyUnknown;
        errclass.WithOnlyMoreSevere] ->
  errclass.WrapAs e c (opts ++ [o]) = errclass.WrapAs e c [o] /\
  errclass.WrapAs e c [] = errclass.WrapAs e c [errclass.WithUnrestricted].
Proof.
  intros Ho. split; [ | destruct e; reflexivity].
  destruct e as [v | ]; [ | reflexivity].
  unfold errclass.WrapAs. rewrite fold_left_app. cbn [fold_left].
  simpl in Ho. destruct Ho as [<- | [<- | [<- | []]]]; reflexivity.
Qed.

Lemma WrapAs_last_option_wins_witness :
  let e := errclass.WrapAs (Some errTest) errclass.Persistent [] in
  errclass.WrapAs e errclass.Transient
    ([errclass.WithUnrestricted; errclass.WithOnlyUnknown]
       ++ [errclass.WithOnlyMoreSevere]) =
  errclass.WrapAs e errclass.Transient [errclass.WithOnlyMoreSevere] /\
  errclass.WrapAs e errclass.Transient [] =
  errclass.WrapAs e errclass.Transient [errclass.WithUnrestricted].
Proof. apply WrapAs_last_option_wins. simpl. tauto. Defined.

(** X12: whatever the options, [WrapAs] changes neither the message of
    the error nor the context [errcontext.Get] finds on it. *)
Theorem WrapAs_keeps_message_and_context
    (e : error) (c : denote errclass.Class)
    (opts : list errclass.WrapOption) :
  call_Error (errclass.WrapAs e c opts) = call_Error e /\
  errcontext.Get (errclass.WrapAs e c opts) = errcontext.Get e.
Proof.
  destruct e as [v | ]; [ | split; reflexivity].
  destruct (WrapAs_cases (Some v) c opts) as [-> | ->]; [split; reflexivity | ].
  split; [reflexivity | ].
  unfold errcontext.Get. rewrite Extend_Some at 1.
  rewrite (Extract_Extend_skip _ _ _ _ Class_is_not_Context). reflexivity.
Qed.

(** X13: whatever the options, an identity match that succeeds on an
    error succeeds on the result of [WrapAs]. *)
Theorem WrapAs_keeps_identity
    (e t : error) (c : denote errclass.Class)
    (opts : list errclass.WrapOption) :
  errors.Is e t = Some true ->
  errors.Is (errclass.WrapAs e c opts) t = Some true.
Proof.
  intros H. destruct (WrapAs_cases e c opts) as [-> | ->]; [exact H | ].
  apply Is_Extend_preserve, H.
Qed.

Lemma WrapAs_keeps_identity_witness :
  errors.Is
    (errclass.WrapAs (Some errTest) errclass.Transient
       [errclass.WithOnlyUnknown])
    (Some errTest) = Some true.
Proof. apply WrapAs_keeps_identity. reflexivity. Defined.

(** ** The flattened context *)

Lemma leb_false_ltb (k x : string) :
  String.leb k x = false -> String.ltb x k = true.
Proof.
  unfold String.leb, String.ltb. rewrite (String.compare_antisym k x).
  destruct (String.compare x k); simpl; congruence.
Qed.

Lemma leb_ne_ltb (k x : string) :
  String.leb k x = true -> k <> x -> String.ltb k x = true.
Proof.
  unfold String.leb, String.ltb. intros H Hne.
  destruct (String.compare k x) eqn:E; try congruence.
  apply String.compare_eq_iff in E. contradiction.
Qed.

Lemma insert_sorted_perm (k : string) (l : list string) :
  errcontext.insert_sorted k l ≡ₚ k :: l.
Proof.
  induction l as [ | x rest IH]; [reflexivity | ].
  simpl. destruct (String.leb k x); [reflexivity | ].
  rewrite IH. apply Permutation_swap.
Qed.

Lemma slices_Sorted_perm (l : list string) : errcontext.slices_Sorted l ≡ₚ l.
Proof.
  induction l as [ | x rest IH]; [reflexivity | ].
  unfold errcontext.slices_Sorted in *. simpl.
  rewrite insert_sorted_perm, IH. reflexivity.
Qed.

Lemma insert_sorted_Sorted (k : string) (l : list string) :
  k ∉ l ->
  Sorted (fun a b => String.ltb a b = true) l ->
  Sorted (fun a b => String.ltb a b = true) (errcontext.insert_sorted k l).
Proof.
  induction l as [ | x rest IH]; intros Hk Hs.
  - repeat constructor.
  - apply not_elem_of_cons in Hk as [Hne Hk].
    apply Sorted_inv in Hs as [Hs Hhd]. simpl.
    destruct (String.leb k x) eqn:E.
    + repeat constructor; [exact Hs | exact Hhd | ].
      apply leb_ne_ltb; assumption.
    + constructor; [apply IH; assumption | ].
      apply leb_false_ltb in E.
      destruct rest as [ | y rest']; simpl.
      * constructor. exact E.
      * destruct (String.leb k y); constructor;
          [exact E | apply (HdRel_inv Hhd)].
Qed.

Lemma slices_Sorted_Sorted (l : list string) :
  NoDup l ->
  Sorted (fun a b => String.ltb a b = true) (errcontext.slices_Sorted l).
Proof.
  induction 1 as [ | x rest Hx _ IH]; [constructor | ].
  unfold errcontext.slices_Sorted in *. simpl.
  apply insert_sorted_Sorted; [ | exact IH].
  fold (errcontext.slices_Sorted rest). rewrite slices_Sorted_perm. exact Hx.
Qed.

(** X14: [Flatten] lists the attributes in strictly ascending order of
    their keys, so no key occurs twice. *)
Theorem Flatten_sorted (h : errcontext.heap) (c : denote errcontext.Context) :
  Sorted (fun a b => String.ltb (slog.Key a) (slog.Key b) = true)
         (errcontext.Flatten h c).
Proof.
  unfold errcontext.Flatten.
  apply (Sorted_fmap _ (fun a b => String.ltb a b = true)); [auto | ].
  apply slices_Sorted_Sorted. apply NoDup_fst_map_to_list.
Qed.

(** X15: [Flatten] lists exactly the entries of the map, one attribute
    per key; a nil context flattens to the empty list. *)
Theorem Flatten_entries (h : errcontext.heap) (c : denote errcontext.Context)
    (k : string) (v : slog.Value) :
  (slog.mkAttr k v ∈ errcontext.Flatten h c <->
   errcontext.deref h c !! k = Some v) /\
  length (errcontext.Flatten h c) = size (errcontext.deref h c) /\
  errcontext.Flatten h None = [].
Proof.
  split; [ | split; [ | reflexivity]].
  - unfold errcontext.Flatten. set (m := errcontext.deref h c).
    rewrite list_elem_of_fmap. setoid_rewrite slices_Sorted_perm.
    unfold errcontext.maps_Keys. split.
    + intros (key & Heq & Hin). injection Heq as -> ->.
      apply list_elem_of_fmap in Hin as ([k' x] & -> & Hin).
      apply elem_of_map_to_list in Hin. simpl. rewrite Hin. reflexivity.
    + intros Hm. exists k. rewrite Hm. split; [reflexivity | ].
      apply list_elem_of_fmap. exists (k, v). split; [reflexivity | ].
      apply elem_of_map_to_list, Hm.
  - unfold errcontext.Flatten, errcontext.maps_Keys.
    rewrite length_fmap, (Permutation_length (slices_Sorted_perm _)).
    rewrite length_fmap. apply length_map_to_list.
Qed.

(** ** Attaching context *)

Lemma Add_nil (h : errcontext.heap) (context : list slog.Attr) :
  errcontext.Add h nil context = (nil, h).
Proof. reflexivity. Qed.

Lemma Add_no_attrs (h : errcontext.heap) (e : error) :
  errcontext.Add h e [] = (e, h).
Proof. destruct e; reflexivity. Qed.

(** The error [Add] returns is its argument or one new wrapper of it. *)
Lemma Add_result (h : errcontext.heap) (e : error) (context : list slog.Attr) :
  (errcontext.Add h e context).1 = e \/
  (errcontext.Add h e context).1 =
    xerrors.Extend errcontext.Context (Some (length h)) e.
Proof.
  destruct e as [v | ]; [ | left; reflexivity].
  destruct context as [ | x context]; [left; reflexivity | ].
  destruct (errcontext.Get (Some v)) as [a | ] eqn:Hg.
  - left. rewrite (Add_existing _ _ _ _ Hg). reflexivity.
  - right. rewrite Add_fresh by (discriminate || exact Hg). reflexivity.
Qed.

Lemma Add_has_context (h : errcontext.heap) (e : error) x context :
  e <> nil -> exists a, errcontext.Get (errcontext.Add h e (x :: context)).1 = Some a.
Proof.
  intros He. destruct (errcontext.Get e) as [a | ] eqn:Hg.
  - exists a. rewrite (Add_existing _ _ _ _ Hg). exact Hg.
  - exists (length h). rewrite (Add_fresh _ _ _ _ He Hg).
    apply Get_Extend, He.
Qed.

Lemma Add_not_nil (h : errcontext.heap) (e : error) context :
  e <> nil -> (errcontext.Add h e context).1 <> nil.
Proof.
  intros He. destruct (Add_result h e context) as [-> | ->];
    [exact He | apply Extend_not_nil, He].
Qed.

Lemma Add_lookup (h : errcontext.heap) (e : error) context k :
  e <> nil ->
  context_allocated h e = true ->
  errcontext.deref (errcontext.Add h e context).2
    (errcontext.Get (errcontext.Add h e context).1) !! k =
  match last_write k context with
  | Some v => Some v
  | None => errcontext.deref h (errcontext.Get e) !! k
  end.
Proof.
  intros He Hwf. unfold context_allocated in Hwf.
  destruct (errcontext.Get e) as [a | ] eqn:Hg.
  - apply Nat.ltb_lt, lookup_lt_is_Some in Hwf as [m Hm].
    rewrite (Add_existing _ _ _ _ Hg). cbn [fst snd]. rewrite Hg.
    cbn [errcontext.deref].
    rewrite (assign_all_lookup_eq _ _ _ _ Hm), Hm. cbn [default].
    apply assign_map_lookup.
  - destruct context as [ | x context].
    + rewrite Add_no_attrs. cbn [fst snd]. rewrite Hg. reflexivity.
    + rewrite (Add_fresh _ _ _ _ He Hg). cbn [fst snd].
      rewrite (Get_Extend _ _ He). cbn [errcontext.deref].
      rewrite (assign_all_lookup_eq _ _ ∅)
        by (apply list_lookup_middle; reflexivity).
      cbn [default]. apply assign_map_lookup.
Qed.

Lemma Add_allocated (h : errcontext.heap) (e : error) context :
  context_allocated h e = true ->
  context_allocated (errcontext.Add h e context).2
                    (errcontext.Add h e context).1 = true.
Proof.
  intros Hwf. destruct e as [v | ]; [ | reflexivity].
  destruct context as [ | x context]; [rewrite Add_no_attrs; exact Hwf | ].
  unfold context_allocated in *.
  destruct (errcontext.Get (Some v)) as [a | ] eqn:Hg.
  - rewrite (Add_existing _ _ _ _ Hg). cbn [fst snd].
    rewrite Hg, assign_all_length. exact Hwf.
  - rewrite Add_fresh by (discriminate || exact Hg). cbn [fst snd].
    rewrite Get_Extend by discriminate.
    rewrite assign_all_length, length_app. apply Nat.ltb_lt. simpl. lia.
Qed.

(** X16: [Add] returns nil exactly on the nil error, and with a nil
    error or without attributes it returns the error and leaves the
    store of maps as they are. *)
Theorem Add_nothing_to_attach
    (h : errcontext.heap) (e : error) (context : list slog.Attr) :
  ((errcontext.Add h e context).1 = nil <-> e = nil) /\
  (e = nil \/ context = [] -> errcontext.Add h e context = (e, h)).
Proof.
  split; [split | ].
  - intros H. destruct e as [v | ]; [ | reflexivity].
    exfalso. apply (Add_not_nil h (Some v) context); [discriminate | exact H].
  - intros ->. reflexivity.
  - intros [-> | ->]; [apply Add_nil | apply Add_no_attrs].
Qed.

Lemma Add_nothing_to_attach_witness :
  errcontext.Add [] (Some errTest) [] = (Some errTest, []).
Proof.
  apply (proj2 (Add_nothing_to_attach [] (Some errTest) [])).
  right. reflexivity.
Defined.

(** X17: after [Add] on a non-nil error whose context, if any, is a
    live map, the context of the result maps each key to its last value
    among the attributes, and every other key to what the error's
    context held before. *)
Theorem Add_then_lookup
    (h : errcontext.heap) (e : error) (context : list slog.Attr) (k : string) :
  e <> nil ->
  context_allocated h e = true ->
  errcontext.deref (errcontext.Add h e context).2
    (errcontext.Get (errcontext.Add h e context).1) !! k =
  match last_write k context with
  | Some v => Some v
  | None => errcontext.deref h (errcontext.Get e) !! k
  end.
Proof. apply Add_lookup. Qed.

Lemma Add_then_lookup_witness :
  let r := errcontext.Add [] (Some errTest) [slog.String "user" "u1"] in
  let context := [slog.String "id" "a"; slog.String "id" "b"] in
  errcontext.deref (errcontext.Add r.2 r.1 context).2
    (errcontext.Get (errcontext.Add r.2 r.1 context).1) !! "id" =
  match last_write "id" context with
  | Some v => Some v
  | None => errcontext.deref r.2 (errcontext.Get r.1) !! "id"
  end.
Proof.
  intros r context. apply Add_then_lookup.
  - discriminate.
  - reflexivity.
Defined.

(** X18: [Add] allocates at most one map and changes no map except the
    one the error's context refers to. *)
Theorem Add_frame
    (h : errcontext.heap) (e : error) (context : list slog.Attr)
    (b : addr) (m : gmap string slog.Value) :
  h !! b = Some m ->
  errcontext.Get e <> Some b ->
  (errcontext.Add h e context).2 !! b = Some m /\
  (length h <= length (errcontext.Add h e context).2 <= S (length h))%nat.
Proof.
  intros Hb Hne.
  destruct e as [v | ]; [ | rewrite Add_nil; split; [exact Hb | simpl; lia]].
  destruct context as [ | x context];
    [rewrite Add_no_attrs; split; [exact Hb | simpl; lia] | ].
  destruct (errcontext.Get (Some v)) as [a | ] eqn:Hg.
  - rewrite (Add_existing _ _ _ _ Hg). cbn [snd].
    rewrite assign_all_length. split; [ | lia].
    rewrite assign_all_lookup_ne by congruence. exact Hb.
  - rewrite Add_fresh by (discriminate || exact Hg). cbn [snd].
    split; [ | rewrite assign_all_length, length_app; simpl; lia].
    pose proof (lookup_lt_Some _ _ _ Hb) as Hlt.
    rewrite assign_all_lookup_ne by lia.
    rewrite lookup_app_l by exact Hlt. exact Hb.
Qed.

Lemma Add_frame_witness :
  let r := errcontext.Add [] (Some errTest) [slog.String "one" "one"] in
  let other := Some (errorString 1%nat "other") in
  (errcontext.Add r.2 other [slog.String "two" "two"]).2 !! 0%nat =
    Some {[ "one" := slog.StringValue "one" ]} /\
  (length r.2 <=
   length (errcontext.Add r.2 other [slog.String "two" "two"]).2 <=
   S (length r.2))%nat.
Proof.
  intros r other. apply Add_frame.
  - vm_compute. reflexivity.
  - discriminate.
Defined.

(** X19: [Add] changes neither the message nor the class of the error. *)
Theorem Add_keeps_message_and_class
    (h : errcontext.heap) (e : error) (context : list slog.Attr) :
  call_Error (errcontext.Add h e context).1 = call_Error e /\
  errclass.GetClass (errcontext.Add h e context).1 = errclass.GetClass e.
Proof.
  destruct (Add_result h e context) as [-> | ->]; [split; reflexivity | ].
  destruct e as [v | ]; [ | split; reflexivity].
  split; [reflexivity | ].
  unfold errclass.GetClass. rewrite Extend_Some at 1.
  rewrite (Extract_Extend_skip _ _ _ _ Context_is_not_Class). reflexivity.
Qed.

(** X20: an identity match that succeeds on an error succeeds on the
    result of [Add]. *)
Theorem Add_keeps_identity
    (h : errcontext.heap) (e t : error) (context : list slog.Attr) :
  errors.Is e t = Some true ->
  errors.Is (errcontext.Add h e context).1 t = Some true.
Proof.
  intros H. destruct (Add_result h e context) as [-> | ->]; [exact H | ].
  apply Is_Extend_preserve, H.
Qed.

Lemma Add_keeps_identity_witness :
  errors.Is (errcontext.Add [] (Some errTest) [slog.String "test" "test"]).1
            (Some errTest) = Some true.
Proof. apply Add_keeps_identity. reflexivity. Defined.

(** ** Attaching context repeatedly *)

Lemma Add_seq_cons (h : errcontext.heap) (e : error) context contexts :
  errcontext.Add_seq h e (context :: contexts) =
  errcontext.Add_seq (errcontext.Add h e context).2
                     (errcontext.Add h e context).1 contexts.
Proof.
  unfold errcontext.Add_seq. cbn [fold_left fst snd].
  destruct (errcontext.Add h e context). reflexivity.
Qed.

Lemma Add_seq_existing (h : errcontext.heap) (e : error) a contexts :
  errcontext.Get e = Some a -> (errcontext.Add_seq h e contexts).1 = e.
Proof.
  intros Hg. revert h.
  induction contexts as [ | context contexts IH]; intros h; [reflexivity | ].
  rewrite Add_seq_cons, (Add_existing _ _ _ _ Hg). apply IH.
Qed.

Lemma last_write_app (k : string) (l1 l2 : list slog.Attr) :
  last_write k (l1 ++ l2) =
  match last_write k l2 with
  | Some v => Some v
  | None => last_write k l1
  end.
Proof.
  induction l1 as [ | x l1 IH]; simpl.
  - destruct (last_write k l2); reflexivity.
  - rewrite IH. destruct (last_write k l2); reflexivity.
Qed.

(** X21: however often [Add] is called on a non-nil error, the result is
    the error the first call with attributes returned: further calls
    add no wrapper. *)
Theorem Add_seq_single_wrapper
    (h : errcontext.heap) (e : error) (x : slog.Attr)
    (context : list slog.Attr) (contexts : list (list slog.Attr)) :
  e <> nil ->
  (errcontext.Add_seq h e ((x :: context) :: contexts)).1 =
  (errcontext.Add h e (x :: context)).1.
Proof.
  intros He. rewrite Add_seq_cons.
  destruct (Add_has_context h e x context He) as [a Ha].
  apply (Add_seq_existing _ _ a), Ha.
Qed.

Lemma Add_seq_single_wrapper_witness :
  (errcontext.Add_seq [] (Some errTest)
     [[slog.String "one" "one"]; [slog.String "two" "two"];
      [slog.String "two" "three"]]).1 =
  (errcontext.Add [] (Some errTest) [slog.String "one" "one"]).1.
Proof. apply Add_seq_single_wrapper. discriminate. Defined.

(** X22: a sequence of [Add] calls accumulates: in the final context a
    key has its last value over all the calls in order, and a key no
    call wrote has what the error's context held at the start. *)
Theorem Add_seq_accumulates
    (h : errcontext.heap) (e : error) (contexts : list (list slog.Attr))
    (k : string) :
  e <> nil ->
  context_allocated h e = true ->
  errcontext.deref (errcontext.Add_seq h e contexts).2
    (errcontext.Get (errcontext.Add_seq h e contexts).1) !! k =
  match last_write k (concat contexts) with
  | Some v => Some v
  | None => errcontext.deref h (errcontext.Get e) !! k
  end.
Proof.
  revert h e. induction contexts as [ | context contexts IH];
    intros h e He Hwf; [reflexivity | ].
  rewrite Add_seq_cons, IH
    by (apply Add_not_nil, He || apply Add_allocated, Hwf).
  cbn [concat]. rewrite last_write_app.
  destruct (last_write k (concat contexts)); [reflexivity | ].
  apply Add_lookup; assumption.
Qed.

Lemma Add_seq_accumulates_witness :
  let contexts :=
    [[slog.String "one" "one"]; [slog.String "two" "two"];
     [slog.String "two" "three"]] in
  errcontext.deref (errcontext.Add_seq [] (Some errTest) contexts).2
    (errcontext.Get (errcontext.Add_seq [] (Some errTest) contexts).1) !! "two" =
  match last_write "two" (concat contexts) with
  | Some v => Some v
  | None => errcontext.deref [] (errcontext.Get (Some errTest)) !! "two"
  end.
Proof.
  intros contexts. apply Add_seq_accumulates.
  - discriminate.
  - reflexivity.
Defined.

(** X23: context added on top of a class wrapper goes into the map the
    wrapped error already carries: [Add] returns the classified error
    itself, and the wrapped error sees the same context. *)
Theorem Add_over_WrapAs
    (h : errcontext.heap) (e : error) (a : addr)
    (c : denote errclass.Class) (opts : list errclass.WrapOption)
    (context : list slog.Attr) :
  errcontext.Get e = Some a ->
  let w := errclass.WrapAs e c opts in
  errcontext.Add h w context = (w, errcontext.assign_all h a context) /\
  errcontext.Get (errcontext.Add h w context).1 = errcontext.Get e.
Proof.
  intros Hg w.
  assert (Hw : errcontext.Get w = Some a).
  { unfold w. destruct e as [v | ]; [ | discriminate].
    destruct (WrapAs_cases (Some v) c opts) as [-> | ->]; [exact Hg | ].
    unfold errcontext.Get in *. rewrite Extend_Some at 1.
    rewrite (Extract_Extend_skip _ _ _ _ Class_is_not_Context). exact Hg. }
  rewrite (Add_existing _ _ _ _ Hw). split; [reflexivity | ].
  cbn [fst]. congruence.
Qed.

Lemma Add_over_WrapAs_witness :
  let r := errcontext.Add [] (Some errTest) [slog.String "one" "one"] in
  let w := errclass.WrapAs r.1 errclass.Transient [] in
  errcontext.Add r.2 w [slog.String "two" "two"] =
    (w, errcontext.assign_all r.2 0%nat [slog.String "two" "two"]) /\
  errcontext.Get (errcontext.Add r.2 w [slog.String "two" "two"]).1 =
    errcontext.Get r.1.
Proof.
  intros r w.
  apply (Add_over_WrapAs r.2 r.1 0%nat errclass.Transient []).
  reflexivity.
Defined.
